(** * js-ipfs core utilities: path parsing and path resolution

    A shallow embedding of [src/core/utils.js] ([parseIpfsPath] and
    [resolveIpfsPaths]) together with the properties of the path
    parser and of the link-following resolver.

    Conventions of the embedding.
    - A JS string is a [string]; a [Buffer] is a [list byte].
    - A function that throws returns [JsError + A]; [inl e] is [throw e].
    - The collaborators that live in other packages ([is-ipfs],
      [multihashes], the [ipfs.object] accessor) are parameters.
    - The node-style callback [cb] and the accessor call
      [ipfs.object.get] are observable events; the per-input arrow
      function of [resolveIpfsPaths] denotes the sequence of events it
      produces, in program order.
    - The [cb] that [async/map] hands to the arrow function accepts
      one call; a second call is recorded and throws, which ends the
      arrow function. *)

From Stdlib Require Import String Ascii List Bool Arith Lia.
From Stdlib.Strings Require Import Byte.
Import ListNotations.

Local Open Scope list_scope.
Local Open Scope string_scope.

(** ** JavaScript values and errors *)

Definition Buffer := list byte.

(** The values [resolveIpfsPaths] documents as inputs: strings and
    Buffers; [typeof path !== 'string'] holds of the Buffers. *)
Inductive jsval : Type :=
| JString (s : string)
| JBuffer (b : Buffer).

(** [new Error(message)] and the engine's [TypeError]. *)
Inductive JsError : Type :=
| Error (message : string)
| TypeError (message : string).

(** ** The regular expression of [parseIpfsPath]

    The pattern, written with blanks between its parts:
    [^ (?: \/ipfs\/ )? ( [^/]+ (?: \/ [^/]+ ) * ) \/? $] *)

Inductive regex : Type :=
| Str (w : string)          (* a literal, e.g. [\/ipfs\/] *)
| NotChar (c : ascii)       (* [[^c]] *)
| Seq (r1 r2 : regex)       (* [r1 r2] *)
| Opt (r : regex)           (* [r?] *)
| Star (r : regex)          (* [r*] *)
| Plus (r : regex).         (* [r+] *)

Definition flatten (l : list string) : string :=
  fold_right append "" l.

(** The strings a regex matches in full. *)
Fixpoint lang (r : regex) (s : string) {struct r} : Prop :=
  match r with
  | Str w => s = w
  | NotChar c => exists d, d <> c /\ s = String d ""
  | Seq r1 r2 => exists s1 s2, s = s1 ++ s2 /\ lang r1 s1 /\ lang r2 s2
  | Opt r' => s = "" \/ lang r' s
  | Star r' => exists l, s = flatten l /\ Forall (lang r') l
  | Plus r' => exists l, l <> [] /\ s = flatten l /\ Forall (lang r') l
  end.

Definition slash : ascii := "/"%char.

Definition re_scheme : regex := Opt (Str "/ipfs/").
Definition re_segment : regex := Plus (NotChar slash).
Definition re_group1 : regex :=
  Seq re_segment (Star (Seq (Str "/") re_segment)).
Definition re_trailer : regex := Opt (Str "/").

(** [ipfsPath.match(re)] succeeds with [matched[1] = m1]: the pattern
    is anchored at both ends, so the three parts cover the input. *)
Definition re_matches (ipfsPath m1 : string) : Prop :=
  exists s0 s2,
    ipfsPath = s0 ++ m1 ++ s2
    /\ lang re_scheme s0 /\ lang re_group1 m1 /\ lang re_trailer s2.

(** *** The matcher, as a function *)

Fixpoint drop_prefix (p s : string) : option string :=
  match p with
  | "" => Some s
  | String a p' =>
      match s with
      | "" => None
      | String b s' => if Ascii.eqb a b then drop_prefix p' s' else None
      end
  end.

(** Remove one trailing ["/"], when there is one. *)
Fixpoint chomp_slash (s : string) : string :=
  match s with
  | "" => ""
  | String c s' =>
      match s' with
      | "" => if Ascii.eqb c slash then "" else s
      | String _ _ => String c (chomp_slash s')
      end
  end.

(** [s.split(sep)] for a one-character separator. *)
Fixpoint split (sep : ascii) (s : string) : list string :=
  match s with
  | "" => [""]
  | String c s' =>
      if Ascii.eqb c sep then "" :: split sep s'
      else match split sep s' with
           | seg :: segs => String c seg :: segs
           | [] => [String c ""]
           end
  end.

Definition nonempty (s : string) : bool :=
  match s with
  | "" => false
  | String _ _ => true
  end.

Fixpoint has_char (c : ascii) (s : string) : bool :=
  match s with
  | "" => false
  | String d s' => Ascii.eqb d c || has_char c s'
  end.

(** The last character of [s] is [c]. *)
Fixpoint ends_with (c : ascii) (s : string) : bool :=
  match s with
  | "" => false
  | String d "" => Ascii.eqb d c
  | String _ s' => ends_with c s'
  end.

(** [sub] occurs in [s]. *)
Definition occurs (sub s : string) : Prop :=
  exists a b, s = a ++ sub ++ b.

(** [ipfsPath.match(re)]: [None] is JS [null], [Some m1] is a match
    whose first group is [m1].  That this function computes the
    matches of the pattern above is [re_exec_spec]. *)
Definition re_exec (ipfsPath : string) : option string :=
  let body := match drop_prefix "/ipfs/" ipfsPath with
              | Some rest => rest
              | None => ipfsPath
              end in
  let m1 := chomp_slash body in
  if forallb nonempty (split slash m1) then Some m1 else None.

(** ** [parseIpfsPath] *)

Record ParsedPath : Type := mkParsedPath {
  root : string;
  links : list string
}.

Definition invalidPathErr : JsError := Error "invalid ipfs ref path".

Section Parser.

(** [isIPFS.multihash], from the package [is-ipfs]. *)
Variable isIPFS_multihash : string -> bool.

Definition parseIpfsPath (ipfsPath : jsval) : JsError + ParsedPath :=
  match ipfsPath with
  | JBuffer _ =>
      (* a Buffer has no [match] method *)
      inl (TypeError "ipfsPath.match is not a function")
  | JString s =>
      match re_exec s with
      | None => inl invalidPathErr
      | Some m1 =>
          match split slash m1 with
          | [] => inl invalidPathErr
          | root :: links =>
              if isIPFS_multihash root
              then inr {| root := root; links := links |}
              else inl invalidPathErr
          end
      end
  end.

End Parser.

(** ** The object graph

    What [follow] reads of a DAG node and of its links:
    [obj.multihash], [obj.links], [link.name], [link.multihash]. *)

Module DAGLink.
Record t : Type := mk {
  name : string;
  multihash : Buffer
}.
End DAGLink.

Module DAGNode.
Record t : Type := mk {
  multihash : Buffer;
  links : list DAGLink.t
}.
End DAGNode.

(** The [ipfs] argument: only [ipfs.object.get] is used.  The accessor
    answers each request once, with [(err)] or with [(null, obj)]; the
    graph is immutable, so the answer depends on the requested hash
    alone. *)
Record IPFS : Type := mkIPFS {
  object_get : Buffer -> JsError + DAGNode.t
}.

(** ** Observable events of one resolution *)

Inductive event : Type :=
| ObjectGet (hash : Buffer)   (* [ipfs.object.get(hash, ...)] is issued *)
| CbErr (err : JsError)       (* [cb(err)] *)
| CbOk (res : Buffer).        (* [cb(null, res)] *)

Definition trace := list event.

Definition is_fetch (e : event) : bool :=
  match e with
  | ObjectGet _ => true
  | _ => false
  end.

Definition is_callback (e : event) : bool := negb (is_fetch e).

Definition fetch_count (tr : trace) : nat := length (filter is_fetch tr).
Definition callback_count (tr : trace) : nat := length (filter is_callback tr).

(** ** The callback of [async/map]

    The package [async] is not part of the sources.  The [cb] that its
    [map] hands to the arrow function is guarded: the first call goes
    through, a second call throws
    [Error('Callback was already called.')].  In [resolveIpfsPaths] no
    call of [cb] stands in the body of a [try] (line 68 is in a
    [catch] clause, line 70 after it, line 77 in a [catch] clause), so
    that error leaves the arrow function: the second call of [cb] is
    the last thing the arrow function does. *)

(** The events up to and including the second call of [cb]; [called]
    tells whether [cb] was called before. *)
Fixpoint until_second_call (called : bool) (tr : trace) : trace :=
  match tr with
  | [] => []
  | e :: tr' =>
      if is_callback e
      then if called then [e] else e :: until_second_call true tr'
      else e :: until_second_call called tr'
  end.

(** [cb] is called a second time. *)
Definition calls_twice (tr : trace) : bool :=
  (2 <=? callback_count tr)%nat.

(** ** [resolveIpfsPaths] *)

(** [ipfsPaths] is one value or an array of values. *)
Inductive paths_arg : Type :=
| Single (path : jsval)
| Array (paths : list jsval).

(** [if (!Array.isArray(ipfsPaths)) ipfsPaths = [ipfsPaths]] *)
Definition as_array (ipfsPaths : paths_arg) : list jsval :=
  match ipfsPaths with
  | Single path => [path]
  | Array paths => paths
  end.

Section Resolver.

(** [isIPFS.multihash]. *)
Variable isIPFS_multihash : string -> bool.
(** [multihashes.validate]: [inl e] when it throws [e]. *)
Variable multihashes_validate : Buffer -> JsError + unit.
(** [multihashes.fromB58String]. *)
Variable multihashes_fromB58String : string -> Buffer.
(** [Buffer.prototype.toString], used by the template literal. *)
Variable Buffer_toString : Buffer -> string.

Variable ipfs : IPFS.

Definition noLinkErr (linkName : string) (under : Buffer) : JsError :=
  Error ("no link named '" ++ linkName ++ "' under " ++ Buffer_toString under).

(** [follow(links, err, obj)], the callback handed to
    [ipfs.object.get]: [res] is the accessor's answer. *)
Fixpoint follow (links : list string) (res : JsError + DAGNode.t) : trace :=
  match res with
  | inl err => [CbErr err]
  | inr obj =>
      match links with
      | [] =>
          (* done tracing, obj is the target node *)
          [CbOk (DAGNode.multihash obj)]
      | linkName :: rest =>
          match find (fun link => DAGLink.name link =? linkName)
                     (DAGNode.links obj) with
          | None => [CbErr (noLinkErr linkName (DAGNode.multihash obj))]
          | Some nextObj =>
              ObjectGet (DAGLink.multihash nextObj)
                :: follow rest (object_get ipfs (DAGLink.multihash nextObj))
          end
      end
  end.

(** The statements of the arrow function mapped over [ipfsPaths], in
    program order, each call of [cb] taken to return.  The first
    block has no [return]: after it comes [parseIpfsPath(path)]. *)
Definition arrow_statements (path : jsval) : trace :=
  (match path with
   | JString _ => []
   | JBuffer b =>
       (match multihashes_validate b with
        | inl err => [CbErr err]
        | inr _ => []
        end ++ [CbOk b])%list
   end
   ++
   match parseIpfsPath isIPFS_multihash path with
   | inl err => [CbErr err]
   | inr parsedPath =>
       let rootHash := multihashes_fromB58String (root parsedPath) in
       let rootLinks := links parsedPath in
       match rootLinks with
       | [] => [CbOk rootHash]
       | _ :: _ =>
           ObjectGet rootHash :: follow rootLinks (object_get ipfs rootHash)
       end
   end)%list.

(** The arrow function under the guarded [cb]: its statements run
    until [cb] is called a second time. *)
Definition iteratee (path : jsval) : trace :=
  until_second_call false (arrow_statements path).

(** The arrow function is left by the error of a second call of
    [cb]. *)
Definition iteratee_throws (path : jsval) : bool :=
  calls_twice (arrow_statements path).

(** The calls of [follow] that a chain of fetches makes.
    [arrives links h tr links' obj]: the chain started by
    [ipfs.object.get(h, follow.bind(null, links))] issues the events
    [tr] and then calls [follow(links', null, obj)]. *)
Inductive arrives :
  list string -> Buffer -> trace -> list string -> DAGNode.t -> Prop :=
| arrives_here links h obj :
    object_get ipfs h = inr obj ->
    arrives links h [ObjectGet h] links obj
| arrives_next linkName rest h parent nextObj tr links' obj :
    object_get ipfs h = inr parent ->
    find (fun link => DAGLink.name link =? linkName) (DAGNode.links parent)
    = Some nextObj ->
    arrives rest (DAGLink.multihash nextObj) tr links' obj ->
    arrives (linkName :: rest) h (ObjectGet h :: tr) links' obj.

(** The loop of [async/map] calls the arrow function on the inputs in
    order.  An error that leaves the arrow function leaves the loop:
    the inputs behind it are not started. *)
Fixpoint started (paths : list jsval) : list jsval :=
  match paths with
  | [] => []
  | path :: rest =>
      path :: (if iteratee_throws path then [] else started rest)
  end.

(** One trace per input that was started, in input order (how the
    traces of different inputs interleave is not modelled, and the
    accessor is taken to answer the requests already issued). *)
Definition resolveIpfsPaths (ipfsPaths : paths_arg) : list trace :=
  let ipfsPaths := as_array ipfsPaths in
  map iteratee (started ipfsPaths).

End Resolver.

(** ** A small object graph and codec, for concrete runs

    Identifiers are written as short texts; the codec maps a text to
    its bytes.  The graph is [root -a-> n1 -b-> n2], where [root] has a
    second link named [a] (to [n3]) and the node stored under [n2]
    reports [n2self] as its own identifier. *)

Module Sample.

Definition isMultihash (s : string) : bool :=
  existsb (String.eqb s) ["root"; "n1"; "n2"; "n3"].

Definition validate (b : Buffer) : JsError + unit :=
  if (List.length b <? 3)%nat
  then inl (Error "multihash too short. must be > 3 bytes.")
  else inr tt.

Definition fromB58String (s : string) : Buffer := list_byte_of_string s.

Definition toString (b : Buffer) : string := string_of_list_byte b.

Definition id (s : string) : Buffer := list_byte_of_string s.

Definition link (n target : string) : DAGLink.t :=
  DAGLink.mk n (id target).

Definition node_root : DAGNode.t :=
  DAGNode.mk (id "root") [link "a" "n1"; link "x" "n3"; link "a" "n3"].
Definition node_n1 : DAGNode.t :=
  DAGNode.mk (id "n1") [link "b" "n2"].
Definition node_n2 : DAGNode.t :=
  DAGNode.mk (id "n2self") [].
Definition node_n3 : DAGNode.t :=
  DAGNode.mk (id "n3") [].

Definition get (h : Buffer) : JsError + DAGNode.t :=
  let k := string_of_list_byte h in
  if k =? "root" then inr node_root
  else if k =? "n1" then inr node_n1
  else if k =? "n2" then inr node_n2
  else if k =? "n3" then inr node_n3
  else inl (Error "not found").

Definition ipfs : IPFS := mkIPFS get.

Definition parse : jsval -> JsError + ParsedPath :=
  parseIpfsPath isMultihash.

Definition run : jsval -> trace :=
  iteratee isMultihash validate fromB58String toString ipfs.

End Sample.

(** A graph with a dangling link: [root -a-> gone], and nothing is
    stored under [gone]. *)

Module Dangling.

Definition node_root : DAGNode.t :=
  DAGNode.mk (Sample.id "root") [Sample.link "a" "gone"].

Definition get (h : Buffer) : JsError + DAGNode.t :=
  if string_of_list_byte h =? "root" then inr node_root
  else inl (Error "not found").

Definition ipfs : IPFS := mkIPFS get.

Definition run : jsval -> trace :=
  iteratee Sample.isMultihash Sample.validate Sample.fromB58String
           Sample.toString ipfs.

End Dangling.

(** * Properties *)

(** ** Strings *)

Lemma append_nil_r (s : string) : s ++ "" = s.
Proof. induction s as [|c s IH]; simpl; [reflexivity | now rewrite IH]. Qed.

Lemma append_assoc (a b c : string) : (a ++ b) ++ c = a ++ b ++ c.
Proof. induction a as [|x a IH]; simpl; [reflexivity | now rewrite IH]. Qed.

Lemma drop_prefix_app p r : drop_prefix p (p ++ r) = Some r.
Proof.
  induction p as [|a p IH]; simpl; [reflexivity|].
  now rewrite Ascii.eqb_refl.
Qed.

Lemma drop_prefix_Some p s r : drop_prefix p s = Some r -> s = p ++ r.
Proof.
  revert s; induction p as [|a p IH]; simpl; intros s H.
  - now inversion H.
  - destruct s as [|b s]; [discriminate|].
    destruct (Ascii.eqb_spec a b) as [->|]; [|discriminate].
    now rewrite (IH _ H).
Qed.

(** *** [chomp_slash] *)

Lemma chomp_slash_cases s :
  s = chomp_slash s \/ s = chomp_slash s ++ "/".
Proof.
  induction s as [|c s IH]; [now left|].
  destruct s as [|d s].
  - simpl. destruct (Ascii.eqb_spec c slash) as [->|]; [now right | now left].
  - change (chomp_slash (String c (String d s)))
      with (String c (chomp_slash (String d s))).
    destruct IH as [IH|IH]; [left | right].
    + f_equal. exact IH.
    + change (String c (chomp_slash (String d s)) ++ "/")
        with (String c (chomp_slash (String d s) ++ "/")).
      f_equal. exact IH.
Qed.

Lemma chomp_slash_app_slash s : nonempty s = true -> chomp_slash (s ++ "/") = s.
Proof.
  induction s as [|c s IH]; [discriminate|]; intros _.
  destruct s as [|d s]; [reflexivity|].
  change (String c (String d s) ++ "/") with (String c (String d (s ++ "/"))).
  change (chomp_slash (String c (String d (s ++ "/"))))
    with (String c (chomp_slash (String d s ++ "/"))).
  now rewrite IH.
Qed.

Lemma chomp_slash_id s : ends_with slash s = false -> chomp_slash s = s.
Proof.
  induction s as [|c s IH]; [reflexivity|].
  destruct s as [|d s]; simpl.
  - now intros ->.
  - intros H. f_equal. now apply IH.
Qed.

(** *** [split] *)

Lemma split_not_nil sep s : split sep s <> [].
Proof.
  destruct s as [|c s]; simpl; [discriminate|].
  destruct (Ascii.eqb c sep); [discriminate|].
  destruct (split sep s); discriminate.
Qed.

Lemma split_cons_other sep c s :
  Ascii.eqb c sep = false ->
  exists seg segs, split sep s = seg :: segs
                   /\ split sep (String c s) = String c seg :: segs.
Proof.
  intros Hc. simpl. rewrite Hc.
  destruct (split sep s) as [|seg segs] eqn:E.
  - now destruct (split_not_nil _ _ E).
  - now exists seg, segs.
Qed.

Lemma split_app_sep sep x y :
  split sep (x ++ String sep y) = (split sep x ++ split sep y)%list.
Proof.
  induction x as [|c x IH].
  - simpl. now rewrite Ascii.eqb_refl.
  - destruct (Ascii.eqb c sep) eqn:Hc.
    + simpl. rewrite Hc, IH. reflexivity.
    + destruct (split_cons_other sep c x Hc) as (seg & segs & E & ->).
      change (String c x ++ String sep y) with (String c (x ++ String sep y)).
      simpl. rewrite Hc, IH, E. reflexivity.
Qed.

Lemma split_no_sep sep x : has_char sep x = false -> split sep x = [x].
Proof.
  induction x as [|c x IH]; [reflexivity|].
  simpl. intros H. apply orb_false_iff in H. destruct H as [Hc Hx].
  now rewrite Hc, (IH Hx).
Qed.

Lemma split_segments sep s :
  Forall (fun seg => has_char sep seg = false) (split sep s).
Proof.
  induction s as [|c s IH]; simpl.
  - now repeat constructor.
  - destruct (Ascii.eqb c sep) eqn:Hc.
    + now constructor.
    + destruct (split sep s) as [|seg segs]; [now repeat constructor; simpl; rewrite Hc|].
      inversion IH; subst. constructor; [|assumption].
      simpl. now rewrite Hc.
Qed.

(** The segments, each put back behind its separator, give the string. *)
Lemma split_join sep s seg segs :
  split sep s = seg :: segs ->
  s = seg ++ flatten (map (String sep) segs).
Proof.
  revert seg segs. induction s as [|c s IH]; simpl; intros seg segs H.
  - now inversion H.
  - destruct (Ascii.eqb_spec c sep) as [->|Hc].
    + inversion H; subst. destruct (split sep s) as [|x xs] eqn:E.
      * now destruct (split_not_nil _ _ E).
      * simpl. now rewrite (IH _ _ eq_refl).
    + destruct (split sep s) as [|x xs] eqn:E.
      * now destruct (split_not_nil _ _ E).
      * inversion H; subst. simpl. now rewrite (IH _ _ eq_refl).
Qed.

Lemma split_of_join sep seg segs :
  has_char sep seg = false ->
  Forall (fun x => has_char sep x = false) segs ->
  split sep (seg ++ flatten (map (String sep) segs)) = seg :: segs.
Proof.
  intros Hseg Hsegs. revert seg Hseg.
  induction Hsegs as [|x xs Hx _ IH]; intros seg Hseg; simpl.
  - rewrite append_nil_r. now apply split_no_sep.
  - change (String sep x ++ flatten (map (String sep) xs))
      with (String sep (x ++ flatten (map (String sep) xs))).
    rewrite split_app_sep, (split_no_sep _ _ Hseg), (IH _ Hx). reflexivity.
Qed.

(** ** The regular expression *)

Lemma flatten_singletons l :
  Forall (lang (NotChar slash)) l ->
  has_char slash (flatten l) = false
  /\ (l <> [] -> nonempty (flatten l) = true).
Proof.
  induction 1 as [|x l Hx _ [IH1 IH2]]; simpl.
  - split; [reflexivity | congruence].
  - destruct Hx as (d & Hd & ->). simpl. split; [|reflexivity].
    rewrite IH1. now destruct (Ascii.eqb_spec d slash).
Qed.

Lemma singletons_of_string x :
  has_char slash x = false ->
  exists l, x = flatten l /\ Forall (lang (NotChar slash)) l
            /\ (nonempty x = true -> l <> []).
Proof.
  induction x as [|c x IH]; simpl; intros H.
  - exists []. repeat split; [constructor | discriminate].
  - apply orb_false_iff in H. destruct H as [Hc Hx].
    destruct (IH Hx) as (l & E & Hl & _).
    exists (String c "" :: l). repeat split.
    + simpl. now rewrite <- E.
    + constructor; [|assumption]. exists c. split; [|reflexivity].
      intros ->. now rewrite Ascii.eqb_refl in Hc.
    + discriminate.
Qed.

(** [[^/]+] matches the non-empty strings without a slash. *)
Lemma lang_segment x :
  lang re_segment x <-> nonempty x = true /\ has_char slash x = false.
Proof.
  split.
  - intros (l & Hne & -> & Hl).
    destruct (flatten_singletons l Hl) as [H1 H2]. split; [now apply H2 | exact H1].
  - intros [Hne Hns]. destruct (singletons_of_string x Hns) as (l & E & Hl & Hl').
    exists l. repeat split; auto.
Qed.

Lemma lang_slash_segments l :
  Forall (lang (Seq (Str "/") re_segment)) l ->
  exists ys, l = map (String slash) ys
             /\ forallb nonempty ys = true
             /\ Forall (fun y => has_char slash y = false) ys.
Proof.
  induction 1 as [|x l Hx _ (ys & -> & Hne & Hns)].
  - exists []. repeat split. constructor.
  - destruct Hx as (s1 & y & -> & -> & Hy).
    apply lang_segment in Hy. destruct Hy as [Hy1 Hy2].
    exists (y :: ys). repeat split.
    + simpl. now rewrite Hy1.
    + now constructor.
Qed.

Lemma slash_segments_lang ys :
  forallb nonempty ys = true ->
  Forall (fun y => has_char slash y = false) ys ->
  Forall (lang (Seq (Str "/") re_segment)) (map (String slash) ys).
Proof.
  intros Hne Hns. induction Hns as [|y ys Hy _ IH]; simpl; [constructor|].
  simpl in Hne. apply andb_true_iff in Hne. destruct Hne as [Hy' Hne].
  constructor; [|now apply IH].
  exists "/", y. repeat split. now apply lang_segment.
Qed.

(** Group 1 matches exactly the strings all of whose [/]-separated
    segments are non-empty. *)
Lemma lang_group1 m :
  lang re_group1 m <-> forallb nonempty (split slash m) = true.
Proof.
  split.
  - intros (x & t & -> & Hx & l & -> & Hl).
    apply lang_segment in Hx. destruct Hx as [Hx1 Hx2].
    destruct (lang_slash_segments l Hl) as (ys & -> & Hne & Hns).
    rewrite (split_of_join slash x ys Hx2 Hns). simpl. now rewrite Hx1.
  - intros H. destruct (split slash m) as [|seg segs] eqn:E.
    + now destruct (split_not_nil _ _ E).
    + pose proof (split_segments slash m) as Hns. rewrite E in Hns.
      inversion Hns as [|? ? Hseg Hsegs]; subst.
      simpl in H. apply andb_true_iff in H. destruct H as [H1 H2].
      exists seg, (flatten (map (String slash) segs)). split; [|split].
      * now apply split_join.
      * now apply lang_segment.
      * exists (map (String slash) segs). split; [reflexivity|].
        now apply slash_segments_lang.
Qed.

Lemma group1_first_char m :
  forallb nonempty (split slash m) = true ->
  exists c m', m = String c m' /\ Ascii.eqb c slash = false.
Proof.
  destruct m as [|c m']; simpl; [discriminate|].
  destruct (Ascii.eqb c slash) eqn:Hc; [discriminate|].
  intros _. now exists c, m'.
Qed.

Lemma group1_last_char m :
  forallb nonempty (tl (split slash m)) = true -> ends_with slash m = false.
Proof.
  induction m as [|c m IH]; [reflexivity|].
  simpl. destruct (Ascii.eqb c slash) eqn:Hc.
  - simpl. intros H. destruct m as [|d m]; [discriminate|].
    apply IH. destruct (split slash (String d m)); [reflexivity|].
    simpl in H. apply andb_true_iff in H. now destruct H.
  - destruct (split slash m) as [|seg segs] eqn:E.
    + now destruct (split_not_nil _ _ E).
    + simpl. intros H. destruct m as [|d m]; [reflexivity|]. now apply IH.
Qed.

Lemma forallb_tl {A} (f : A -> bool) l :
  forallb f l = true -> forallb f (tl l) = true.
Proof.
  destruct l; simpl; [reflexivity|].
  intros H. apply andb_true_iff in H. now destruct H.
Qed.

(** *** The function [re_exec] computes the match of the pattern *)

Lemma re_exec_sound s m1 : re_exec s = Some m1 -> re_matches s m1.
Proof.
  unfold re_exec. intros H.
  set (body := match drop_prefix "/ipfs/" s with
               | Some rest => rest
               | None => s
               end) in *.
  destruct (forallb nonempty (split slash (chomp_slash body))) eqn:Hne;
    [|discriminate].
  inversion H as [Hm]. clear H.
  assert (Hs0 : exists s0, s = s0 ++ body /\ lang re_scheme s0).
  { subst body. destruct (drop_prefix "/ipfs/" s) as [rest|] eqn:E.
    - exists "/ipfs/". split; [now apply drop_prefix_Some | now right].
    - exists "". split; [reflexivity | now left]. }
  destruct Hs0 as (s0 & Hs & Hs0).
  assert (Hs2 : exists s2, body = chomp_slash body ++ s2 /\ lang re_trailer s2).
  { destruct (chomp_slash_cases body) as [E|E].
    - exists "". split; [now rewrite append_nil_r | now left].
    - exists "/". split; [exact E | now right]. }
  destruct Hs2 as (s2 & Hb & Hs2).
  exists s0, s2. repeat split; try assumption.
  - now rewrite <- Hb.
  - now apply lang_group1.
Qed.

Lemma re_exec_complete s m1 : re_matches s m1 -> re_exec s = Some m1.
Proof.
  intros (s0 & s2 & -> & Hs0 & Hm & Hs2).
  apply lang_group1 in Hm.
  destruct (group1_first_char m1 Hm) as (c & m' & Em & Hc).
  assert (Hlast : ends_with slash m1 = false)
    by (apply group1_last_char; now apply forallb_tl).
  assert (Hbody : match drop_prefix "/ipfs/" (s0 ++ m1 ++ s2) with
                  | Some rest => rest
                  | None => s0 ++ m1 ++ s2
                  end = m1 ++ s2).
  { destruct Hs0 as [->| ->].
    - rewrite Em. cbn [append drop_prefix].
      rewrite Ascii.eqb_sym in Hc. unfold slash in Hc. now rewrite Hc.
    - now rewrite drop_prefix_app. }
  assert (Hchomp : chomp_slash (m1 ++ s2) = m1).
  { destruct Hs2 as [->| ->].
    - rewrite append_nil_r. now apply chomp_slash_id.
    - apply chomp_slash_app_slash. now rewrite Em. }
  unfold re_exec. rewrite Hbody, Hchomp, Hm. reflexivity.
Qed.

Lemma re_exec_spec s m1 : re_exec s = Some m1 <-> re_matches s m1.
Proof. split; [apply re_exec_sound | apply re_exec_complete]. Qed.

(** The first group of a match is determined by the input: no choice
    of the backtracking matcher can change [matched[1]]. *)
Lemma re_matches_functional s m1 m1' :
  re_matches s m1 -> re_matches s m1' -> m1 = m1'.
Proof.
  intros H H'. apply re_exec_complete in H, H'. congruence.
Qed.

(** *** No accepted path has an empty interior segment *)

Lemma empty_segment_is_last C Q l1 l2 :
  forallb nonempty C = true ->
  Q = [] \/ Q = [""] ->
  (l1 ++ "" :: l2 = C ++ Q)%list ->
  l2 = [].
Proof.
  intros HC HQ. revert l1. induction C as [|x C IH]; intros l1 E.
  - simpl in E. destruct HQ as [-> | ->].
    + now destruct l1.
    + destruct l1 as [|y l1]; [now inversion E|].
      inversion E as [[Ey El]]. now destruct l1.
  - simpl in HC. apply andb_true_iff in HC. destruct HC as [Hx HC].
    destruct l1 as [|y l1]; simpl in E; inversion E as [[Ex El]].
    + subst x. discriminate.
    + now apply (IH HC l1).
Qed.

Lemma split_occurs_dslash a b :
  split slash (a ++ "//" ++ b)
  = (split slash a ++ "" :: split slash b)%list.
Proof.
  change (a ++ "//" ++ b) with (a ++ String slash (String slash b)).
  rewrite split_app_sep. f_equal.
Qed.

Lemma re_matches_no_dslash s m1 : re_matches s m1 -> ~ occurs "//" s.
Proof.
  intros (s0 & s2 & Es & Hs0 & Hm & Hs2) (a & b & Eab).
  apply lang_group1 in Hm. simpl in Hs0, Hs2.
  assert (HQ : exists Q, (Q = [] \/ Q = [""])
                         /\ split slash (m1 ++ s2) = (split slash m1 ++ Q)%list).
  { destruct Hs2 as [-> | ->].
    - exists []. split; [now left|]. now rewrite append_nil_r, app_nil_r.
    - exists [""]. split; [now right|].
      change (m1 ++ "/") with (m1 ++ String slash "").
      now rewrite split_app_sep. }
  destruct HQ as (Q & HQ & EQ).
  pose proof (split_occurs_dslash a b) as Hab. rewrite <- Eab, Es in Hab.
  assert (Hb : split slash b <> []) by apply split_not_nil.
  destruct Hs0 as [-> | ->].
  - simpl in Hab. rewrite EQ in Hab. symmetry in Hab.
    apply Hb. eapply empty_segment_is_last; eauto.
  - change ("/ipfs/" ++ m1 ++ s2) with ("/ipfs" ++ String slash (m1 ++ s2)) in Hab.
    rewrite split_app_sep, EQ in Hab.
    change (split slash "/ipfs") with [""; "ipfs"] in Hab.
    destruct (split slash a) as [|x [|y l1]] eqn:Ea.
    + now destruct (split_not_nil _ _ Ea).
    + simpl in Hab. inversion Hab.
    + simpl in Hab. inversion Hab as [[Ex Ey El]]. symmetry in El.
      apply Hb. eapply empty_segment_is_last; eauto.
Qed.

(** ** [parseIpfsPath] *)

Section ParserProperties.

Variable isIPFS_multihash : string -> bool.

Local Abbreviation parse := (parseIpfsPath isIPFS_multihash).

(** What a successful parse means. *)
Lemma parseIpfsPath_inr s p :
  parse (JString s) = inr p <->
  exists m1, re_matches s m1
             /\ split slash m1 = root p :: links p
             /\ isIPFS_multihash (root p) = true.
Proof.
  unfold parseIpfsPath. split.
  - destruct (re_exec s) as [m1|] eqn:E; [|discriminate].
    destruct (split slash m1) as [|r ls] eqn:Es; [discriminate|].
    destruct (isIPFS_multihash r) eqn:Hr; [|discriminate].
    intros H. inversion H; subst; simpl.
    exists m1. repeat split; auto. now apply re_exec_sound.
  - intros (m1 & Hm & Es & Hr). apply re_exec_complete in Hm.
    rewrite Hm, Es, Hr. now destruct p.
Qed.

(** The only error [parseIpfsPath] throws on a string. *)
Lemma parseIpfsPath_inl s e :
  parse (JString s) = inl e -> e = invalidPathErr.
Proof.
  unfold parseIpfsPath.
  destruct (re_exec s) as [m1|]; [|now inversion 1].
  destruct (split slash m1) as [|r ls]; [now inversion 1|].
  destruct (isIPFS_multihash r); [discriminate | now inversion 1].
Qed.

Lemma parseIpfsPath_no_match s :
  re_exec s = None -> parse (JString s) = inl invalidPathErr.
Proof. unfold parseIpfsPath. now intros ->. Qed.

(** C6.  [parseIpfsPath] throws the invalid-path error on the empty
    string, on ["/"], and on every string in which ["//"] occurs (an
    empty interior segment); it returns no parsed path for them. *)
Theorem parseIpfsPath_rejects_empty_segments s :
  s = "" \/ s = "/" \/ occurs "//" s ->
  parse (JString s) = inl invalidPathErr.
Proof.
  intros [-> | [-> | H]]; [reflexivity | reflexivity |].
  apply parseIpfsPath_no_match.
  destruct (re_exec s) as [m1|] eqn:E; [|reflexivity].
  apply re_exec_sound in E. now destruct (re_matches_no_dslash s m1 E).
Qed.

(** C7.  When the input matches the pattern (it is syntactically
    well formed, with first group [m1]) and the first segment of
    [m1] is refused by [isIPFS.multihash], [parseIpfsPath] throws the
    invalid-path error. *)
Theorem parseIpfsPath_rejects_invalid_root s m1 :
  re_matches s m1 ->
  isIPFS_multihash (hd "" (split slash m1)) = false ->
  parse (JString s) = inl invalidPathErr.
Proof.
  intros Hm Hr. apply re_exec_complete in Hm.
  unfold parseIpfsPath. rewrite Hm.
  destruct (split slash m1) as [|r ls]; [reflexivity|].
  simpl in Hr. now rewrite Hr.
Qed.

(** Putting the scheme in front of a path that does not carry it
    leaves the match unchanged. *)
Lemma re_exec_scheme p :
  drop_prefix "/ipfs/" p = None -> re_exec ("/ipfs/" ++ p) = re_exec p.
Proof.
  intros H. unfold re_exec. now rewrite drop_prefix_app, H.
Qed.

(** This holds of every string without the scheme, accepted or not. *)
Lemma parseIpfsPath_scheme_any p :
  drop_prefix "/ipfs/" p = None ->
  parse (JString ("/ipfs/" ++ p)) = parse (JString p).
Proof.
  intros H. unfold parseIpfsPath. now rewrite (re_exec_scheme p H).
Qed.

(** C8, amended.  For every string [p] accepted by the pattern that
    does not itself begin with ["/ipfs/"], [parseIpfsPath] gives the
    same outcome on ["/ipfs/" ++ p] and on [p]: the same
    [{root, links}], or the same error.  In particular ["root/a/b"]
    parses to root ["root"] and links [["a"; "b"]] when
    [isIPFS.multihash] accepts ["root"]. *)
Theorem parseIpfsPath_scheme_stripped p m1 :
  re_matches p m1 ->
  drop_prefix "/ipfs/" p = None ->
  parse (JString ("/ipfs/" ++ p)) = parse (JString p)
  /\ parse (JString "root/a/b")
     = (if isIPFS_multihash "root"
        then inr {| root := "root"; links := ["a"; "b"] |}
        else inl invalidPathErr).
Proof.
  intros _ H. split; [now apply parseIpfsPath_scheme_any | reflexivity].
Qed.

End ParserProperties.

(** ** Traces *)

Lemma fetch_count_cons_get h tr :
  fetch_count (ObjectGet h :: tr) = S (fetch_count tr).
Proof. reflexivity. Qed.

Lemma fetch_count_app tr1 tr2 :
  fetch_count (tr1 ++ tr2)%list = fetch_count tr1 + fetch_count tr2.
Proof. unfold fetch_count. now rewrite filter_app, length_app. Qed.

Lemma trace_two_last (e1 e2 e : event) pre :
  ([e1; e2] = pre ++ [e])%list -> pre = [e1] /\ e2 = e.
Proof.
  intros H. change [e1; e2] with ([e1] ++ [e2])%list in H.
  apply app_inj_tail in H. now destruct H.
Qed.

Lemma find_none_iff {A} (f : A -> bool) l :
  find f l = None <-> (forall x, In x l -> f x = false).
Proof.
  split; [apply find_none|].
  induction l as [|a l IH]; simpl; intros H; [reflexivity|].
  rewrite (H a (or_introl eq_refl)). apply IH. intros x Hx. apply H. now right.
Qed.

Lemma find_first {A} (f : A -> bool) before first after :
  (forall x, In x before -> f x = false) ->
  f first = true ->
  find f (before ++ first :: after)%list = Some first.
Proof.
  intros Hb Hf. induction before as [|a l IH]; simpl.
  - now rewrite Hf.
  - rewrite (Hb a (or_introl eq_refl)). apply IH. intros x Hx. apply Hb. now right.
Qed.

(** ** [resolveIpfsPaths] *)

Section ResolverProperties.

Variable isIPFS_multihash : string -> bool.
Variable multihashes_validate : Buffer -> JsError + unit.
Variable multihashes_fromB58String : string -> Buffer.
Variable Buffer_toString : Buffer -> string.
Variable ipfs : IPFS.

Local Abbreviation parse := (parseIpfsPath isIPFS_multihash).
Local Abbreviation follow' := (follow Buffer_toString ipfs).
Local Abbreviation run :=
  (iteratee isIPFS_multihash multihashes_validate
            multihashes_fromB58String Buffer_toString ipfs).
Local Abbreviation named linkName :=
  (fun link => DAGLink.name link =? linkName).

(** A chain calls [cb] once, so the guard never fires in it. *)
Lemma until_second_call_follow links :
  forall res, until_second_call false (follow' links res) = follow' links res.
Proof.
  induction links as [|linkName rest IH]; intros [err|obj]; simpl;
    try reflexivity.
  destruct (find (named linkName) (DAGNode.links obj)) as [nextObj|];
    simpl; [now rewrite IH | reflexivity].
Qed.

Lemma callback_count_follow links :
  forall res, callback_count (follow' links res) = 1.
Proof.
  induction links as [|linkName rest IH]; intros [err|obj]; simpl;
    try reflexivity.
  destruct (find (named linkName) (DAGNode.links obj)) as [nextObj|];
    [|reflexivity].
  exact (IH (object_get ipfs (DAGLink.multihash nextObj))).
Qed.

Lemma iteratee_string s :
  run (JString s)
  = match parse (JString s) with
    | inl err => [CbErr err]
    | inr parsedPath =>
        match links parsedPath with
        | [] => [CbOk (multihashes_fromB58String (root parsedPath))]
        | _ :: _ =>
            let rootHash := multihashes_fromB58String (root parsedPath) in
            ObjectGet rootHash
              :: follow' (links parsedPath) (object_get ipfs rootHash)
        end
    end.
Proof.
  unfold iteratee, arrow_statements. rewrite app_nil_l.
  destruct (parse (JString s)) as [err|p]; [reflexivity|].
  cbv zeta. destruct (links p) as [|l ls]; [reflexivity|].
  cbn [until_second_call is_callback is_fetch negb].
  now rewrite until_second_call_follow.
Qed.

(** A string input calls [cb] once: the arrow function returns. *)
Lemma iteratee_throws_string s :
  iteratee_throws isIPFS_multihash multihashes_validate
    multihashes_fromB58String Buffer_toString ipfs (JString s) = false.
Proof.
  unfold iteratee_throws, arrow_statements, calls_twice. rewrite app_nil_l.
  destruct (parse (JString s)) as [err|p]; [reflexivity|].
  cbv zeta. destruct (links p) as [|l ls]; [reflexivity|].
  change (callback_count (ObjectGet ?h :: ?tr)) with (callback_count tr).
  now rewrite callback_count_follow.
Qed.

(** The events of a Buffer input: [cb] is called twice, and the
    second call ends the arrow function. *)
Lemma iteratee_buffer b :
  run (JBuffer b)
  = match multihashes_validate b with
    | inl err => [CbErr err; CbOk b]
    | inr _ =>
        [CbOk b; CbErr (TypeError "ipfsPath.match is not a function")]
    end.
Proof.
  unfold iteratee, arrow_statements. simpl.
  now destruct (multihashes_validate b).
Qed.

Lemma iteratee_throws_buffer b :
  iteratee_throws isIPFS_multihash multihashes_validate
    multihashes_fromB58String Buffer_toString ipfs (JBuffer b) = true.
Proof.
  unfold iteratee_throws, arrow_statements. simpl.
  now destruct (multihashes_validate b).
Qed.

Lemma started_nth paths :
  forall i path,
    nth_error paths i = Some path ->
    (forall j q, j < i -> nth_error paths j = Some q ->
                 iteratee_throws isIPFS_multihash multihashes_validate
                   multihashes_fromB58String Buffer_toString ipfs q = false) ->
    nth_error (started isIPFS_multihash multihashes_validate
                 multihashes_fromB58String Buffer_toString ipfs paths) i
    = Some path.
Proof.
  induction paths as [|q0 paths IH]; intros [|i] path H Hq; simpl in *;
    try discriminate.
  - exact H.
  - rewrite (Hq 0 q0); [|lia|reflexivity].
    apply IH; [exact H|]. intros j q Hj Hn. apply (Hq (S j) q); [lia|exact Hn].
Qed.

(** An input with no throwing input before it is resolved by
    [iteratee], at its own position. *)
Lemma resolveIpfsPaths_nth ipfsPaths i path :
  nth_error (as_array ipfsPaths) i = Some path ->
  (forall j q, j < i -> nth_error (as_array ipfsPaths) j = Some q ->
               iteratee_throws isIPFS_multihash multihashes_validate
                 multihashes_fromB58String Buffer_toString ipfs q = false) ->
  nth_error (resolveIpfsPaths isIPFS_multihash multihashes_validate
               multihashes_fromB58String Buffer_toString ipfs ipfsPaths) i
  = Some (run path).
Proof.
  intros H Hq. unfold resolveIpfsPaths.
  apply map_nth_error. now apply started_nth.
Qed.

(** The inputs behind a Buffer are not started. *)
Lemma resolveIpfsPaths_stops_at_buffer before b behind :
  Forall (fun q => exists s, q = JString s) before ->
  resolveIpfsPaths isIPFS_multihash multihashes_validate
    multihashes_fromB58String Buffer_toString ipfs
    (Array (before ++ JBuffer b :: behind)%list)
  = map run (before ++ [JBuffer b])%list.
Proof.
  intros Hb. unfold resolveIpfsPaths. f_equal. simpl.
  induction Hb as [|q before (s & ->) _ IH]; simpl.
  - now rewrite iteratee_throws_buffer.
  - now rewrite iteratee_throws_string, IH.
Qed.

(** A chain of fetches that ends in [cb(null, r)]: every link name
    was consumed, each by one fetch, and [r] is read off the node
    that the last fetch returned.  When there were link names, the
    last fetch asked for the hash stored in the link found, under the
    last name, in the node that the fetch before it returned. *)
Lemma follow_success links :
  forall h pre r,
    (ObjectGet h :: follow' links (object_get ipfs h) = pre ++ [CbOk r])%list ->
    exists pre' h' obj,
      pre = (pre' ++ [ObjectGet h'])%list
      /\ object_get ipfs h' = inr obj
      /\ r = DAGNode.multihash obj
      /\ fetch_count pre = S (List.length links)
      /\ match links with
         | [] => h' = h /\ pre' = []
         | _ :: _ =>
             exists pre'' hp parent lnk,
               pre' = (pre'' ++ [ObjectGet hp])%list
               /\ object_get ipfs hp = inr parent
               /\ find (named (last links "")) (DAGNode.links parent)
                  = Some lnk
               /\ DAGLink.multihash lnk = h'
         end.
Proof.
  induction links as [|linkName rest IH]; intros h pre r E.
  - simpl in E. destruct (object_get ipfs h) as [err|obj] eqn:G;
      apply trace_two_last in E; destruct E as [-> E]; [discriminate|].
    inversion E; subst. exists [], h, obj. now repeat split.
  - simpl in E. destruct (object_get ipfs h) as [err|obj] eqn:G.
    { apply trace_two_last in E. destruct E as [_ E]. discriminate. }
    destruct (find (named linkName) (DAGNode.links obj)) as [nextObj|] eqn:F.
    2:{ apply trace_two_last in E. destruct E as [_ E]. discriminate. }
    destruct pre as [|e pre2]; [discriminate|].
    simpl in E. inversion E as [[He E']]. subst e.
    destruct (IH _ _ _ E') as (pre' & h' & obj' & -> & G' & -> & Hn & Hl).
    exists (ObjectGet h :: pre'), h', obj'. repeat split; auto.
    + rewrite fetch_count_cons_get, Hn. reflexivity.
    + destruct rest as [|l2 rest].
      * destruct Hl as [-> ->]. now exists [], h, obj, nextObj.
      * destruct Hl as (pre'' & hp & parent & lnk & -> & Gp & Fp & Hh).
        now exists (ObjectGet h :: pre''), hp, parent, lnk.
Qed.

(** C1.  For a textual path with at least one link name whose
    resolution ends in success [cb(null, r)]: the two events before
    the callback are fetches.  The first returned the node [parent]
    in which the last link name was looked up; the second asked for
    the hash [h] stored in the link found there and returned [obj].
    The result [r] is the [multihash] field of [obj] -- the fetched
    node's own identifier -- whatever [h] is. *)
Theorem resolve_returns_fetched_node_multihash s p pre r :
  parse (JString s) = inr p ->
  links p <> [] ->
  run (JString s) = (pre ++ [CbOk r])%list ->
  exists pre' hp parent lnk h obj,
    pre = (pre' ++ [ObjectGet hp; ObjectGet h])%list
    /\ object_get ipfs hp = inr parent
    /\ find (named (last (links p) "")) (DAGNode.links parent) = Some lnk
    /\ h = DAGLink.multihash lnk
    /\ object_get ipfs h = inr obj
    /\ r = DAGNode.multihash obj.
Proof.
  intros Hp Hl E. rewrite iteratee_string, Hp in E.
  destruct (links p) as [|l ls] eqn:El; [congruence|].
  cbv zeta in E.
  destruct (follow_success (l :: ls) _ _ _ E)
    as (pre1 & h & obj & -> & G & -> & _
        & pre' & hp & parent & lnk & -> & Gp & F & Hh).
  exists pre', hp, parent, lnk, h, obj.
  rewrite <- app_assoc. now repeat split.
Qed.

Lemma fetch_count_fetches hs :
  fetch_count (map ObjectGet hs) = List.length hs.
Proof.
  unfold fetch_count. induction hs as [|h hs IH]; simpl; [reflexivity|].
  now rewrite IH.
Qed.

Lemma last_cons_default {A} (a d : A) l : last (a :: l) d = last l a.
Proof.
  revert a d. induction l as [|b l IH]; intros a d; [reflexivity|].
  change (last (a :: b :: l) d) with (last (b :: l) d).
  now rewrite (IH b d), (IH b a).
Qed.

(** A successful chain is a chain of the graph that consumed every
    link name. *)
Lemma follow_success_arrives links :
  forall h pre r,
    (ObjectGet h :: follow' links (object_get ipfs h) = pre ++ [CbOk r])%list ->
    exists obj, arrives ipfs links h pre [] obj /\ r = DAGNode.multihash obj.
Proof.
  induction links as [|linkName rest IH]; intros h pre r E.
  - simpl in E. destruct (object_get ipfs h) as [err|obj] eqn:G;
      apply trace_two_last in E; destruct E as [-> E]; [discriminate|].
    inversion E; subst. exists obj. split; [now apply arrives_here | reflexivity].
  - simpl in E. destruct (object_get ipfs h) as [err|parent] eqn:G.
    { apply trace_two_last in E. destruct E as [_ E]. discriminate. }
    destruct (find (named linkName) (DAGNode.links parent)) as [nextObj|] eqn:F.
    2:{ apply trace_two_last in E. destruct E as [_ E]. discriminate. }
    destruct pre as [|e pre2]; [discriminate|].
    simpl in E. inversion E as [[He E']]. subst e.
    destruct (IH _ _ _ E') as (obj & Ha & ->).
    exists obj. split; [|reflexivity].
    now apply (arrives_next ipfs linkName rest h parent nextObj).
Qed.

(** The events of a chain are the fetch of its start and then one
    fetch per link name consumed; the last of them returned the node
    reached. *)
Lemma arrives_fetches links h tr links' obj :
  arrives ipfs links h tr links' obj ->
  exists targets,
    tr = map ObjectGet (h :: targets)
    /\ List.length targets + List.length links' = List.length links
    /\ object_get ipfs (last targets h) = inr obj.
Proof.
  induction 1 as [links h obj G
                 |linkName rest h parent nextObj tr links' obj _ _ _ IH].
  - exists []. now repeat split.
  - destruct IH as (targets & -> & Hn & Hl).
    exists (DAGLink.multihash nextObj :: targets). repeat split.
    + simpl. lia.
    + now rewrite last_cons_default.
Qed.

(** C2, amended.  For a textual path with N >= 1 link names that
    resolves successfully, exactly N + 1 fetches are issued, and these
    are all its events before the callback: first the fetch of the
    decoded root, then N fetches, one for each link name in order,
    each asking for the hash stored in the link found under that name
    in the node the fetch before it returned ([arrives]).  The last
    fetch returned the terminal node, whose own identifier is the
    result. *)
Theorem resolve_fetches_root_and_each_link s p pre r :
  parse (JString s) = inr p ->
  1 <= List.length (links p) ->
  run (JString s) = (pre ++ [CbOk r])%list ->
  exists targets obj,
    pre = map ObjectGet (multihashes_fromB58String (root p) :: targets)
    /\ List.length targets = List.length (links p)
    /\ arrives ipfs (links p) (multihashes_fromB58String (root p)) pre [] obj
    /\ object_get ipfs (last targets (multihashes_fromB58String (root p)))
       = inr obj
    /\ r = DAGNode.multihash obj
    /\ fetch_count (run (JString s)) = List.length (links p) + 1.
Proof.
  intros Hp Hl E. pose proof E as E0. rewrite iteratee_string, Hp in E.
  destruct (links p) as [|l ls] eqn:El; [simpl in Hl; lia|].
  cbv zeta in E.
  destruct (follow_success_arrives (l :: ls) _ _ _ E) as (obj & Ha & Hr).
  destruct (arrives_fetches _ _ _ _ _ Ha) as (targets & Epre & Hn & Hlast).
  exists targets, obj. simpl in Hn. repeat split; auto; [simpl; lia|].
  rewrite E0, fetch_count_app, Epre, fetch_count_fetches.
  change (fetch_count [CbOk r]) with 0. simpl. lia.
Qed.

(** C4, amended.  A traversal step is a call
    [follow(links, null, obj)] with a link name left.  When no link
    of [obj] has exactly that name, the step calls back once, with a
    plain [Error] whose message is the text built by the template
    literal -- the link name between quotes, then [obj.multihash]
    turned to text by [toString] -- and issues no fetch. *)
Theorem follow_missing_link linkName rest obj :
  (forall link, In link (DAGNode.links obj) -> DAGLink.name link <> linkName) ->
  follow' (linkName :: rest) (inr obj)
  = [CbErr (Error ("no link named '" ++ linkName ++ "' under "
                   ++ Buffer_toString (DAGNode.multihash obj)))]
  /\ fetch_count (follow' (linkName :: rest) (inr obj)) = 0.
Proof.
  intros H.
  assert (F : find (named linkName) (DAGNode.links obj) = None).
  { apply find_none_iff. intros link Hin. apply String.eqb_neq. now apply H. }
  simpl. rewrite F. split; reflexivity.
Qed.

(** The events up to a call of [follow], then the events of that
    call, are the events of the chain. *)
Lemma arrives_trace links h tr links' obj :
  arrives ipfs links h tr links' obj ->
  ObjectGet h :: follow' links (object_get ipfs h)
  = (tr ++ follow' links' (inr obj))%list.
Proof.
  induction 1 as [links h obj G
                 |linkName rest h parent nextObj tr links' obj G F _ IH].
  - now rewrite G.
  - simpl. rewrite G, F. simpl. now rewrite IH.
Qed.

Lemma arrives_last_fetch links h tr links' obj :
  arrives ipfs links h tr links' obj ->
  exists tr' h', tr = (tr' ++ [ObjectGet h'])%list
                 /\ object_get ipfs h' = inr obj.
Proof.
  induction 1 as [links h obj G
                 |linkName rest h parent nextObj tr links' obj _ _ _ IH].
  - now exists [], h.
  - destruct IH as (tr' & h' & -> & G'). now exists (ObjectGet h :: tr'), h'.
Qed.

(** X12.  The whole run of a textual path that reaches a node lacking the
    next link name: the events up to that node, whose last is the
    fetch that returned it, then the error callback and nothing
    else. *)
Lemma resolve_missing_link_run s p tr linkName rest obj :
  parse (JString s) = inr p ->
  links p <> [] ->
  arrives ipfs (links p) (multihashes_fromB58String (root p)) tr
          (linkName :: rest) obj ->
  find (named linkName) (DAGNode.links obj) = None ->
  run (JString s)
  = (tr ++ [CbErr (noLinkErr Buffer_toString linkName (DAGNode.multihash obj))])%list
  /\ exists tr' h, tr = (tr' ++ [ObjectGet h])%list
                   /\ object_get ipfs h = inr obj.
Proof.
  intros Hp Hl Ha F. split; [|now apply (arrives_last_fetch _ _ _ _ _ Ha)].
  rewrite iteratee_string, Hp.
  destruct (links p) as [|l ls] eqn:El; [congruence|].
  cbv zeta. rewrite (arrives_trace _ _ _ _ _ Ha). simpl. now rewrite F.
Qed.

(** C5.  A textual path that parses to a root with no links calls
    back once with [multihashes.fromB58String(root)] and issues no
    fetch. *)
Theorem resolve_root_only s p :
  parse (JString s) = inr p ->
  links p = [] ->
  run (JString s) = [CbOk (multihashes_fromB58String (root p))]
  /\ fetch_count (run (JString s)) = 0.
Proof.
  intros Hp Hl. rewrite iteratee_string, Hp, Hl. split; reflexivity.
Qed.

(** C9.  When the links of the fetched node are [before], then
    [first], then [after], with [first] carrying the name sought and
    no link of [before] carrying it, the step fetches the target of
    [first] and goes on from there, whatever [after] holds: links of
    the same name further down the list play no part. *)
Theorem follow_first_of_duplicates self before first after linkName rest :
  (forall link, In link before -> DAGLink.name link <> linkName) ->
  DAGLink.name first = linkName ->
  follow' (linkName :: rest)
          (inr (DAGNode.mk self (before ++ first :: after)%list))
  = ObjectGet (DAGLink.multihash first)
      :: follow' rest (object_get ipfs (DAGLink.multihash first)).
Proof.
  intros Hb Hf. simpl. rewrite find_first; [reflexivity | | ].
  - intros link Hin. apply String.eqb_neq. now apply Hb.
  - now apply String.eqb_eq.
Qed.

(** C10, amended.  On a Buffer the first block of the arrow function
    does not return after calling [cb], and [cb] is called twice for
    the one input.  When validation throws, [cb(err)] is followed by
    [cb(null, path)]; that second call throws and ends the arrow
    function, so the text parser is not reached.  When validation
    succeeds, [cb(null, path)] is followed by [parseIpfsPath(path)],
    whose [TypeError] is handed to [cb] as its second call. *)
Theorem iteratee_buffer_calls_back_twice b :
  run (JBuffer b)
  = match multihashes_validate b with
    | inl err => [CbErr err; CbOk b]
    | inr _ =>
        [CbOk b; CbErr (TypeError "ipfsPath.match is not a function")]
    end
  /\ callback_count (run (JBuffer b)) = 2
  /\ iteratee_throws isIPFS_multihash multihashes_validate
       multihashes_fromB58String Buffer_toString ipfs (JBuffer b) = true.
Proof.
  rewrite iteratee_buffer, iteratee_throws_buffer.
  now destruct (multihashes_validate b).
Qed.

(** C3 (the code at a valid raw identifier).  The Buffer is handed
    to [cb] as its own result and no fetch is issued, but the
    resolution does not stop there: the Buffer is then text-parsed
    and [cb] is called a second time, with an error. *)
Theorem raw_identifier_falls_through b :
  multihashes_validate b = inr tt ->
  run (JBuffer b)
  = [CbOk b; CbErr (TypeError "ipfsPath.match is not a function")]
  /\ run (JBuffer b) <> [CbOk b]
  /\ fetch_count (run (JBuffer b)) = 0.
Proof.
  intros H. rewrite iteratee_buffer, H.
  repeat split. discriminate.
Qed.

End ResolverProperties.

(** ** Concrete runs on the sample graph *)

Lemma resolve_returns_fetched_node_multihash_witness :
  exists pre' hp parent lnk h obj,
    [ObjectGet (Sample.id "root"); ObjectGet (Sample.id "n1");
     ObjectGet (Sample.id "n2")] = (pre' ++ [ObjectGet hp; ObjectGet h])%list
    /\ object_get Sample.ipfs hp = inr parent
    /\ find (fun link => DAGLink.name link =? "b") (DAGNode.links parent)
       = Some lnk
    /\ h = DAGLink.multihash lnk
    /\ object_get Sample.ipfs h = inr obj
    /\ Sample.id "n2self" = DAGNode.multihash obj.
Proof.
  apply (resolve_returns_fetched_node_multihash
           Sample.isMultihash Sample.validate Sample.fromB58String
           Sample.toString Sample.ipfs
           "root/a/b" {| root := "root"; links := ["a"; "b"] |}
           [ObjectGet (Sample.id "root"); ObjectGet (Sample.id "n1");
            ObjectGet (Sample.id "n2")]
           (Sample.id "n2self"));
    [reflexivity | discriminate | reflexivity].
Defined.

(** C2 as stated fails: ["root/a"] has one link name and resolves
    successfully with two fetches. *)
Lemma one_fetch_per_link_counterexample :
  Sample.parse (JString "root/a")
  = inr {| root := "root"; links := ["a"] |}
  /\ Sample.run (JString "root/a")
     = [ObjectGet (Sample.id "root"); ObjectGet (Sample.id "n1");
        CbOk (Sample.id "n1")]
  /\ fetch_count (Sample.run (JString "root/a")) <> List.length ["a"].
Proof. repeat split. discriminate. Qed.

Lemma resolve_fetches_root_and_each_link_witness :
  1 <= List.length ["a"; "b"]
  /\ exists targets obj,
       [ObjectGet (Sample.id "root"); ObjectGet (Sample.id "n1");
        ObjectGet (Sample.id "n2")]
       = map ObjectGet (Sample.fromB58String "root" :: targets)
       /\ List.length targets = List.length ["a"; "b"]
       /\ arrives Sample.ipfs ["a"; "b"] (Sample.fromB58String "root")
            [ObjectGet (Sample.id "root"); ObjectGet (Sample.id "n1");
             ObjectGet (Sample.id "n2")] [] obj
       /\ object_get Sample.ipfs (last targets (Sample.fromB58String "root"))
          = inr obj
       /\ Sample.id "n2self" = DAGNode.multihash obj
       /\ fetch_count (Sample.run (JString "root/a/b")) = 2 + 1.
Proof.
  split; [simpl; lia|].
  apply (resolve_fetches_root_and_each_link
           Sample.isMultihash Sample.validate Sample.fromB58String
           Sample.toString Sample.ipfs
           "root/a/b" {| root := "root"; links := ["a"; "b"] |}
           [ObjectGet (Sample.id "root"); ObjectGet (Sample.id "n1");
            ObjectGet (Sample.id "n2")]
           (Sample.id "n2self"));
    [reflexivity | simpl; lia | reflexivity].
Defined.

Lemma raw_identifier_falls_through_witness :
  Sample.validate (Sample.id "root") = inr tt
  /\ Sample.run (JBuffer (Sample.id "root"))
     = [CbOk (Sample.id "root");
        CbErr (TypeError "ipfsPath.match is not a function")].
Proof.
  split; [reflexivity|].
  apply (raw_identifier_falls_through
           Sample.isMultihash Sample.validate Sample.fromB58String
           Sample.toString Sample.ipfs (Sample.id "root")).
  reflexivity.
Defined.

(** C4 as stated fails: the error is its message and nothing more,
    and the message does not determine the link name and the node.
    Two steps that miss different names under different nodes call
    back with the same error. *)
Lemma missing_link_error_counterexample :
  follow Sample.toString Sample.ipfs ["x' under y"]
         (inr (DAGNode.mk (Sample.id "z") []))
  = [CbErr (Error "no link named 'x' under y' under z")]
  /\ follow Sample.toString Sample.ipfs ["x"]
            (inr (DAGNode.mk (Sample.id "y' under z") []))
     = [CbErr (Error "no link named 'x' under y' under z")]
  /\ "x' under y" <> "x"
  /\ Sample.id "z" <> Sample.id "y' under z".
Proof. repeat split; discriminate. Qed.

(** C10 as stated fails for the inputs whose validation throws: their
    second callback is [cb(null, path)], and no callback comes from
    the text parser. *)
Lemma buffer_failing_validation_counterexample :
  Sample.validate [] = inl (Error "multihash too short. must be > 3 bytes.")
  /\ Sample.run (JBuffer [])
     = [CbErr (Error "multihash too short. must be > 3 bytes."); CbOk []]
  /\ ~ (exists b err,
          Sample.validate b = inl err
          /\ In (CbErr (TypeError "ipfsPath.match is not a function"))
                (Sample.run (JBuffer b))).
Proof.
  split; [reflexivity|]. split; [reflexivity|].
  intros (b & err & Hv & Hin). unfold Sample.run in Hin.
  rewrite iteratee_buffer, Hv in Hin.
  unfold Sample.validate in Hv.
  destruct (List.length b <? 3)%nat; [|discriminate].
  inversion Hv; subst err.
  destruct Hin as [H | [H | []]]; discriminate.
Qed.

Lemma follow_missing_link_witness :
  follow Sample.toString Sample.ipfs ["z"] (inr Sample.node_n1)
  = [CbErr (Error "no link named 'z' under n1")].
Proof.
  apply (follow_missing_link Sample.toString Sample.ipfs "z" [] Sample.node_n1).
  simpl. intros link [<- | []]. discriminate.
Defined.

Lemma resolve_root_only_witness :
  Sample.run (JString "/ipfs/root/") = [CbOk (Sample.fromB58String "root")]
  /\ fetch_count (Sample.run (JString "/ipfs/root/")) = 0.
Proof.
  apply (resolve_root_only
           Sample.isMultihash Sample.validate Sample.fromB58String
           Sample.toString Sample.ipfs
           "/ipfs/root/" {| root := "root"; links := [] |});
    reflexivity.
Defined.

Lemma parseIpfsPath_rejects_empty_segments_witness :
  occurs "//" "a//b" /\ Sample.parse (JString "a//b") = inl invalidPathErr.
Proof.
  assert (H : occurs "//" "a//b") by (exists "a", "b"; reflexivity).
  split; [exact H|].
  apply (parseIpfsPath_rejects_empty_segments Sample.isMultihash "a//b").
  right; right; exact H.
Defined.

Lemma parseIpfsPath_rejects_invalid_root_witness :
  re_matches "ipfs/root/" "ipfs/root"
  /\ Sample.isMultihash "ipfs" = false
  /\ Sample.parse (JString "ipfs/root/") = inl invalidPathErr.
Proof.
  assert (H : re_matches "ipfs/root/" "ipfs/root")
    by (apply re_exec_sound; reflexivity).
  split; [exact H|]. split; [reflexivity|].
  apply (parseIpfsPath_rejects_invalid_root
           Sample.isMultihash "ipfs/root/" "ipfs/root" H).
  reflexivity.
Defined.

(** C8 as stated fails on a path that already carries the scheme:
    ["/ipfs/root"] is accepted, and with ["/ipfs/"] put in front of it
    the input has an empty segment and is rejected. *)
Lemma scheme_prepended_counterexample :
  re_matches "/ipfs/root" "root"
  /\ Sample.parse (JString "/ipfs/root")
     = inr {| root := "root"; links := [] |}
  /\ Sample.parse (JString ("/ipfs/" ++ "/ipfs/root")) = inl invalidPathErr
  /\ Sample.parse (JString ("/ipfs/" ++ "/ipfs/root"))
     <> Sample.parse (JString "/ipfs/root").
Proof.
  split; [apply re_exec_sound; reflexivity|].
  repeat split. discriminate.
Qed.

Lemma parseIpfsPath_scheme_stripped_witness :
  re_matches "root/a/b" "root/a/b"
  /\ drop_prefix "/ipfs/" "root/a/b" = None
  /\ Sample.parse (JString ("/ipfs/" ++ "root/a/b"))
     = Sample.parse (JString "root/a/b").
Proof.
  assert (H : re_matches "root/a/b" "root/a/b")
    by (apply re_exec_sound; reflexivity).
  split; [exact H|]. split; [reflexivity|].
  apply (parseIpfsPath_scheme_stripped Sample.isMultihash
           "root/a/b" "root/a/b" H).
  reflexivity.
Defined.

Lemma follow_first_of_duplicates_witness :
  follow Sample.toString Sample.ipfs ["a"; "b"] (inr Sample.node_root)
  = ObjectGet (Sample.id "n1")
      :: follow Sample.toString Sample.ipfs ["b"]
           (object_get Sample.ipfs (Sample.id "n1")).
Proof.
  apply (follow_first_of_duplicates Sample.toString Sample.ipfs
           (Sample.id "root") [] (Sample.link "a" "n1")
           [Sample.link "x" "n3"; Sample.link "a" "n3"] "a" ["b"]).
  - intros link [].
  - reflexivity.
Defined.

(** The scenarios of the specification, run on the sample graph. *)

Example resolve_missing_link :
  Sample.run (JString "root/a/z")
  = [ObjectGet (Sample.id "root"); ObjectGet (Sample.id "n1");
     CbErr (Error "no link named 'z' under n1")].
Proof. reflexivity. Qed.

Example resolve_batch :
  resolveIpfsPaths Sample.isMultihash Sample.validate Sample.fromB58String
    Sample.toString Sample.ipfs
    (Array [JString "root/a/b"; JString "root/a/z"; JString "bad path"])
  = [ [ObjectGet (Sample.id "root"); ObjectGet (Sample.id "n1");
       ObjectGet (Sample.id "n2"); CbOk (Sample.id "n2self")];
      [ObjectGet (Sample.id "root"); ObjectGet (Sample.id "n1");
       CbErr (Error "no link named 'z' under n1")];
      [CbErr invalidPathErr] ].
Proof. reflexivity. Qed.

Example resolve_invalid_buffer :
  Sample.run (JBuffer [])
  = [CbErr (Error "multihash too short. must be > 3 bytes."); CbOk []].
Proof. reflexivity. Qed.

Example resolve_batch_with_buffer :
  resolveIpfsPaths Sample.isMultihash Sample.validate Sample.fromB58String
    Sample.toString Sample.ipfs
    (Array [JString "root"; JBuffer (Sample.id "root"); JString "root/a"])
  = [ [CbOk (Sample.id "root")];
      [CbOk (Sample.id "root");
       CbErr (TypeError "ipfsPath.match is not a function")] ].
Proof. reflexivity. Qed.

(** * Further properties of the parser *)

Lemma append_snoc_inj a b c :
  a ++ String c "" = b ++ String c "" -> a = b.
Proof.
  revert b. induction a as [|x a IH]; intros [|y b] H; simpl in H.
  - reflexivity.
  - inversion H as [[Hc Hb]]. now destruct b.
  - inversion H as [[Hc Ha]]. now destruct a.
  - inversion H. f_equal. now apply IH.
Qed.

Lemma ends_with_snoc c a : ends_with c (a ++ String c "") = true.
Proof.
  induction a as [|x a IH]; simpl; [apply Ascii.eqb_refl|].
  destruct (a ++ String c "") eqn:E; [now destruct a | exact IH].
Qed.

Lemma ends_with_app c a b :
  nonempty b = true -> ends_with c (a ++ b) = ends_with c b.
Proof.
  intros Hb. induction a as [|x a IH]; [reflexivity|].
  simpl. destruct (a ++ b) eqn:E; [|exact IH].
  destruct a; [simpl in E; subst b|]; discriminate.
Qed.

Lemma group1_shape m1 :
  lang re_group1 m1 -> nonempty m1 = true /\ ends_with slash m1 = false.
Proof.
  intros H. apply lang_group1 in H. split.
  - destruct (group1_first_char m1 H) as (c & m' & -> & _). reflexivity.
  - apply group1_last_char. now apply forallb_tl.
Qed.

(** [segs.join('/')], for a non-empty array. *)
Lemma concat_slash x xs :
  String.concat "/" (x :: xs) = x ++ flatten (map (String slash) xs).
Proof.
  revert x. induction xs as [|y ys IH]; intros x.
  - simpl. now rewrite append_nil_r.
  - change (String.concat "/" (x :: y :: ys))
      with (x ++ "/" ++ String.concat "/" (y :: ys)).
    rewrite IH. reflexivity.
Qed.

Lemma re_matches_add_slash p m1 :
  ends_with slash p = false -> re_matches p m1 -> re_matches (p ++ "/") m1.
Proof.
  intros Hp (s0 & s2 & -> & Hs0 & Hm & Hs2). simpl in Hs2.
  destruct Hs2 as [-> | ->].
  - exists s0, "/". repeat split; [|assumption|assumption|now right].
    now rewrite append_nil_r, append_assoc.
  - rewrite <- append_assoc in Hp.
    change "/" with (String slash "") in Hp.
    now rewrite ends_with_snoc in Hp.
Qed.

Lemma re_matches_drop_slash p m1 :
  ends_with slash p = false -> re_matches (p ++ "/") m1 -> re_matches p m1.
Proof.
  intros Hp (s0 & s2 & E & Hs0 & Hm & Hs2). simpl in Hs2.
  destruct (group1_shape m1 Hm) as [Hne Hlast].
  destruct Hs2 as [-> | ->].
  - rewrite append_nil_r in E.
    assert (H : ends_with slash (p ++ "/") = true)
      by (change "/" with (String slash ""); apply ends_with_snoc).
    rewrite E, (ends_with_app slash s0 m1 Hne), Hlast in H. discriminate.
  - rewrite <- append_assoc in E.
    change "/" with (String slash "") in E. apply append_snoc_inj in E.
    exists s0, "". repeat split; [|assumption|assumption|now left].
    now rewrite append_nil_r.
Qed.

Lemma re_exec_segments s m1 :
  re_exec s = Some m1 -> forallb nonempty (split slash m1) = true.
Proof.
  intros H. apply re_exec_sound in H.
  destruct H as (_ & _ & _ & _ & Hm & _). now apply lang_group1.
Qed.

Section ParserExtras.

Variable isIPFS_multihash : string -> bool.

Local Abbreviation parse := (parseIpfsPath isIPFS_multihash).

(** A segment as the pattern wants it: not empty, without a slash. *)
Local Abbreviation segment_ok :=
  (fun seg => nonempty seg = true /\ has_char slash seg = false).

(** X1.  One trailing slash makes no difference: for every string [p]
    that does not end in a slash, [p ++ "/"] and [p] parse alike. *)
Theorem parseIpfsPath_trailing_slash p :
  ends_with slash p = false ->
  parse (JString (p ++ "/")) = parse (JString p).
Proof.
  intros Hp.
  assert (E : re_exec (p ++ "/") = re_exec p).
  { destruct (re_exec p) as [m1|] eqn:E1.
    - apply re_exec_complete, re_matches_add_slash; [assumption|].
      now apply re_exec_sound.
    - destruct (re_exec (p ++ "/")) as [m1|] eqn:E2; [|reflexivity].
      apply re_exec_sound, (re_matches_drop_slash p m1 Hp) in E2.
      apply re_exec_complete in E2. congruence. }
  unfold parseIpfsPath. now rewrite E.
Qed.

(** X2.  What [parseIpfsPath] returns is well formed: the root passed
    [isIPFS.multihash], and the root and every link name are non-empty
    and contain no slash. *)
Theorem parseIpfsPath_result_well_formed s p :
  parse (JString s) = inr p ->
  isIPFS_multihash (root p) = true
  /\ Forall segment_ok (root p :: links p).
Proof.
  intros H. apply parseIpfsPath_inr in H.
  destruct H as (m1 & Hm & Es & Hr). split; [exact Hr|].
  apply re_exec_complete, re_exec_segments in Hm.
  pose proof (split_segments slash m1) as Hns. rewrite Es in Hm, Hns.
  rewrite forallb_forall in Hm. rewrite Forall_forall in Hns.
  apply Forall_forall. intros seg Hin. split; auto.
Qed.

(** X3.  Parsing undoes joining: a valid root and well-formed link
    names, joined with slashes, with or without the scheme in front
    and with or without one slash behind, parse back to that root and
    those links, in order. *)
Theorem parseIpfsPath_of_join r ls s0 s2 :
  s0 = "" \/ s0 = "/ipfs/" ->
  s2 = "" \/ s2 = "/" ->
  isIPFS_multihash r = true ->
  Forall segment_ok (r :: ls) ->
  parse (JString (s0 ++ String.concat "/" (r :: ls) ++ s2))
  = inr {| root := r; links := ls |}.
Proof.
  intros Hs0 Hs2 Hr Hok. apply parseIpfsPath_inr. simpl.
  assert (Hns : Forall (fun x => has_char slash x = false) (r :: ls)).
  { eapply Forall_impl; [|exact Hok]. now intros x [_ Hx]. }
  assert (Hne : forallb nonempty (r :: ls) = true).
  { apply forallb_forall. rewrite Forall_forall in Hok.
    intros x Hx. now apply Hok. }
  inversion Hns as [|? ? Hr' Hls]; subst.
  assert (Es : split slash (String.concat "/" (r :: ls)) = r :: ls).
  { rewrite concat_slash. now apply split_of_join. }
  exists (String.concat "/" (r :: ls)). repeat split; try assumption.
  exists s0, s2. repeat split; try assumption.
  apply lang_group1. now rewrite Es.
Qed.

(** X4.  Joining undoes parsing: an input that parses is the root and
    the links joined with slashes, behind nothing or the scheme, and
    before nothing or one slash. *)
Theorem parseIpfsPath_input_is_join s p :
  parse (JString s) = inr p ->
  exists s0 s2,
    s = s0 ++ String.concat "/" (root p :: links p) ++ s2
    /\ (s0 = "" \/ s0 = "/ipfs/")
    /\ (s2 = "" \/ s2 = "/").
Proof.
  intros H. apply parseIpfsPath_inr in H.
  destruct H as (m1 & (s0 & s2 & -> & Hs0 & _ & Hs2) & Es & _).
  exists s0, s2. repeat split; try assumption.
  now rewrite concat_slash, <- (split_join slash m1 _ _ Es).
Qed.

(** X5.  A path that starts with a slash is accepted only under the
    scheme ["/ipfs/"]: any other input with a leading slash (another
    namespace, say) throws the invalid-path error. *)
Theorem parseIpfsPath_rejects_other_leading_slash s' :
  drop_prefix "/ipfs/" (String slash s') = None ->
  parse (JString (String slash s')) = inl invalidPathErr.
Proof.
  intros H. apply parseIpfsPath_no_match.
  destruct (re_exec (String slash s')) as [m1|] eqn:E; [|reflexivity].
  apply re_exec_sound in E. destruct E as (s0 & s2 & E & Hs0 & Hm & _).
  simpl in Hs0. destruct Hs0 as [-> | ->].
  - apply lang_group1, group1_first_char in Hm.
    destruct Hm as (c & m' & -> & Hc). simpl in E. inversion E; subst.
    now rewrite Ascii.eqb_refl in Hc.
  - rewrite E, drop_prefix_app in H. discriminate.
Qed.

End ParserExtras.

(** * Further properties of the resolver *)

Lemma single_event_split {A} (x a : A) pre post :
  ([x] = pre ++ a :: post)%list -> pre = [] /\ post = [] /\ x = a.
Proof.
  destruct pre as [|y [|z pre]]; intros H; inversion H; auto.
Qed.

Lemma counts_fetches_then_callback hs e :
  is_callback e = true ->
  fetch_count (map ObjectGet hs ++ [e])%list = List.length hs
  /\ callback_count (map ObjectGet hs ++ [e])%list = 1.
Proof.
  intros He. unfold fetch_count, callback_count, is_callback in *.
  induction hs as [|h hs [IH1 IH2]]; simpl.
  - destruct (is_fetch e); [discriminate | now split].
  - split; [now f_equal | exact IH2].
Qed.

Ltac shape_done :=
  split; [reflexivity | split; [reflexivity | simpl; lia]].

Section ResolverExtras.

Variable isIPFS_multihash : string -> bool.
Variable multihashes_validate : Buffer -> JsError + unit.
Variable multihashes_fromB58String : string -> Buffer.
Variable Buffer_toString : Buffer -> string.
Variable ipfs : IPFS.

Local Abbreviation parse := (parseIpfsPath isIPFS_multihash).
Local Abbreviation follow' := (follow Buffer_toString ipfs).
Local Abbreviation run :=
  (iteratee isIPFS_multihash multihashes_validate
            multihashes_fromB58String Buffer_toString ipfs).
Local Abbreviation run_string :=
  (iteratee_string isIPFS_multihash multihashes_validate
                   multihashes_fromB58String Buffer_toString ipfs).
Local Abbreviation named linkName :=
  (fun link => DAGLink.name link =? linkName).

(** A chain is some fetches, at most one per link name, and then one
    callback. *)
Lemma follow_shape links :
  forall res, exists hs e,
    follow' links res = (map ObjectGet hs ++ [e])%list
    /\ is_callback e = true
    /\ List.length hs <= List.length links.
Proof.
  induction links as [|linkName rest IH]; intros [err|obj]; simpl.
  - exists [], (CbErr err). shape_done.
  - exists [], (CbOk (DAGNode.multihash obj)). shape_done.
  - exists [], (CbErr err). shape_done.
  - destruct (find (named linkName) (DAGNode.links obj)) as [nextObj|].
    + destruct (IH (object_get ipfs (DAGLink.multihash nextObj)))
        as (hs & e & -> & He & Hn).
      exists (DAGLink.multihash nextObj :: hs), e.
      split; [reflexivity | split; [assumption | simpl; lia]].
    + eexists [], _. shape_done.
Qed.

Lemma run_string_shape s :
  exists hs e,
    run (JString s) = (map ObjectGet hs ++ [e])%list
    /\ is_callback e = true
    /\ List.length hs
       <= match parse (JString s) with
          | inl _ => 0
          | inr p => match links p with
                     | [] => 0
                     | _ :: _ => List.length (links p) + 1
                     end
          end.
Proof.
  rewrite run_string. destruct (parse (JString s)) as [err|p].
  - exists [], (CbErr err). shape_done.
  - destruct (links p) as [|l ls] eqn:El.
    + eexists [], _. shape_done.
    + cbv zeta.
      destruct (follow_shape (l :: ls)
                  (object_get ipfs (multihashes_fromB58String (root p))))
        as (hs & e & -> & He & Hn).
      exists (multihashes_fromB58String (root p) :: hs), e.
      split; [reflexivity | split; [assumption | simpl in *; lia]].
Qed.

(** X6.  A string input is answered exactly once: its events are
    fetches and then a single call of [cb], which is the last event. *)
Theorem resolve_string_calls_back_once s :
  callback_count (run (JString s)) = 1
  /\ exists hs e,
       run (JString s) = (map ObjectGet hs ++ [e])%list
       /\ is_callback e = true.
Proof.
  destruct (run_string_shape s) as (hs & e & E & He & _).
  split; [|now exists hs, e].
  rewrite E. now apply counts_fetches_then_callback.
Qed.

(** X7.  A string that [parseIpfsPath] refuses is answered with the
    invalid-path error, and the graph is not touched. *)
Theorem resolve_invalid_path s err :
  parse (JString s) = inl err ->
  run (JString s) = [CbErr invalidPathErr].
Proof.
  intros H. rewrite run_string, H.
  now rewrite (parseIpfsPath_inl isIPFS_multihash s err H).
Qed.

(** X8.  Whatever the outcome, a path with N link names costs at most
    N + 1 fetches. *)
Theorem resolve_fetch_bound s p :
  parse (JString s) = inr p ->
  fetch_count (run (JString s)) <= List.length (links p) + 1.
Proof.
  intros Hp. destruct (run_string_shape s) as (hs & e & E & He & Hn).
  rewrite Hp in Hn. rewrite E.
  destruct (counts_fetches_then_callback hs e He) as [-> _].
  destruct (links p); simpl in *; lia.
Qed.

Lemma follow_failed_fetch links :
  forall res pre h post err,
    follow' links res = (pre ++ ObjectGet h :: post)%list ->
    object_get ipfs h = inl err ->
    post = [CbErr err].
Proof.
  induction links as [|linkName rest IH]; intros [e|obj] pre h post err E G;
    simpl in E;
    try (apply single_event_split in E; destruct E as (_ & _ & E);
         discriminate).
  destruct (find (named linkName) (DAGNode.links obj)) as [nextObj|].
  - destruct pre as [|x pre]; simpl in E; inversion E as [[Eh Ep]].
    + subst. rewrite G. now destruct rest.
    + now apply (IH _ _ _ _ _ Ep).
  - apply single_event_split in E. destruct E as (_ & _ & E). discriminate.
Qed.

(** X9.  A fetch that the accessor fails ends the resolution: the next
    event is [cb(err)] with the accessor's own error, and it is the
    last. *)
Theorem resolve_failed_fetch s pre h post err :
  run (JString s) = (pre ++ ObjectGet h :: post)%list ->
  object_get ipfs h = inl err ->
  post = [CbErr err].
Proof.
  rewrite run_string. intros E G.
  destruct (parse (JString s)) as [e|p].
  { apply single_event_split in E. destruct E as (_ & _ & E). discriminate. }
  destruct (links p) as [|l ls].
  { apply single_event_split in E. destruct E as (_ & _ & E). discriminate. }
  cbv zeta in E. destruct pre as [|x pre]; simpl in E.
  - inversion E as [[Eh Ep]]. subst. rewrite G. reflexivity.
  - inversion E as [[Ex Ep]].
    exact (follow_failed_fetch (l :: ls) _ pre h post err Ep G).
Qed.

Lemma follow_consecutive_fetches links :
  forall h pre h1 h2 post,
    (ObjectGet h :: follow' links (object_get ipfs h)
     = pre ++ ObjectGet h1 :: ObjectGet h2 :: post)%list ->
    exists obj lnk,
      object_get ipfs h1 = inr obj
      /\ find (named (nth (List.length pre) links "")) (DAGNode.links obj)
         = Some lnk
      /\ DAGLink.multihash lnk = h2.
Proof.
  assert (Hone : forall (x y : event) pre a b post,
             ([x; y] = pre ++ a :: b :: post)%list -> pre = [] /\ y = b).
  { intros x y [|u [|v [|w pre]]] a b post H; inversion H; auto. }
  induction links as [|linkName rest IH]; intros h pre h1 h2 post E.
  - simpl in E. destruct (object_get ipfs h);
      apply Hone in E; destruct E as [_ E]; discriminate.
  - simpl in E. destruct (object_get ipfs h) as [e|obj] eqn:G.
    { apply Hone in E. destruct E as [_ E]. discriminate. }
    destruct (find (named linkName) (DAGNode.links obj)) as [nextObj|] eqn:F.
    2:{ apply Hone in E. destruct E as [_ E]. discriminate. }
    destruct pre as [|x pre]; simpl in E; inversion E as [[E1 E2]].
    + subst. exists obj, nextObj. now repeat split.
    + destruct (IH _ _ _ _ _ E2) as (obj' & lnk & G' & F' & Hh).
      now exists obj', lnk.
Qed.

(** X10.  Two fetches in a row are one link followed: the first
    returned a node, the link name at that position of the path was
    looked up in it, and the second asks for the hash stored in the
    link found.  The resolver fetches nothing else. *)
Theorem resolve_consecutive_fetches s p pre h1 h2 post :
  parse (JString s) = inr p ->
  run (JString s) = (pre ++ ObjectGet h1 :: ObjectGet h2 :: post)%list ->
  exists obj lnk,
    object_get ipfs h1 = inr obj
    /\ find (named (nth (List.length pre) (links p) "")) (DAGNode.links obj)
       = Some lnk
    /\ DAGLink.multihash lnk = h2.
Proof.
  intros Hp E. rewrite run_string, Hp in E.
  destruct (links p) as [|l ls] eqn:El.
  { destruct pre as [|x [|y pre]]; inversion E. }
  cbv zeta in E. now apply (follow_consecutive_fetches _ _ _ _ _ _ E).
Qed.

Lemma arrives_fetch_count links h tr links' obj :
  arrives ipfs links h tr links' obj ->
  List.length links' + fetch_count tr = S (List.length links).
Proof.
  induction 1 as [links h obj G
                 |linkName rest h parent nextObj tr links' obj _ _ _ IH].
  - unfold fetch_count. simpl. lia.
  - rewrite fetch_count_cons_get. simpl. lia.
Qed.

(** X11.  When the graph holds the whole chain -- every node on the
    way is returned by the accessor and has a link of the name wanted
    -- the resolution succeeds: after the N + 1 fetches of the chain,
    [cb] receives the [multihash] of the node reached. *)
Theorem resolve_succeeds_along_chain s p tr obj :
  parse (JString s) = inr p ->
  links p <> [] ->
  arrives ipfs (links p) (multihashes_fromB58String (root p)) tr [] obj ->
  run (JString s) = (tr ++ [CbOk (DAGNode.multihash obj)])%list
  /\ fetch_count tr = List.length (links p) + 1.
Proof.
  intros Hp Hl Ha. split.
  - rewrite run_string, Hp.
    destruct (links p) as [|l ls] eqn:El; [congruence|].
    cbv zeta. now rewrite (arrives_trace _ _ _ _ _ _ _ Ha).
  - pose proof (arrives_fetch_count _ _ _ _ _ Ha) as H. simpl in H. lia.
Qed.

End ResolverExtras.

(** ** Concrete runs for the further properties *)

Lemma parseIpfsPath_trailing_slash_witness :
  ends_with slash "root/a" = false
  /\ Sample.parse (JString ("root/a" ++ "/")) = Sample.parse (JString "root/a").
Proof.
  split; [reflexivity|].
  apply (parseIpfsPath_trailing_slash Sample.isMultihash "root/a").
  reflexivity.
Defined.

Lemma parseIpfsPath_result_well_formed_witness :
  Sample.isMultihash "root" = true
  /\ Forall (fun seg => nonempty seg = true /\ has_char slash seg = false)
            ["root"; "a"; "b"].
Proof.
  apply (parseIpfsPath_result_well_formed Sample.isMultihash
           "/ipfs/root/a/b/" {| root := "root"; links := ["a"; "b"] |}).
  reflexivity.
Defined.

Lemma parseIpfsPath_of_join_witness :
  Sample.parse (JString ("/ipfs/" ++ String.concat "/" ["root"; "a"; "b"] ++ "/"))
  = inr {| root := "root"; links := ["a"; "b"] |}.
Proof.
  apply (parseIpfsPath_of_join Sample.isMultihash "root" ["a"; "b"]
           "/ipfs/" "/").
  - now right.
  - now right.
  - reflexivity.
  - repeat constructor.
Defined.

Lemma parseIpfsPath_input_is_join_witness :
  exists s0 s2,
    "/ipfs/root/a/" = s0 ++ String.concat "/" ["root"; "a"] ++ s2
    /\ (s0 = "" \/ s0 = "/ipfs/")
    /\ (s2 = "" \/ s2 = "/").
Proof.
  apply (parseIpfsPath_input_is_join Sample.isMultihash
           "/ipfs/root/a/" {| root := "root"; links := ["a"] |}).
  reflexivity.
Defined.

Lemma parseIpfsPath_rejects_other_leading_slash_witness :
  drop_prefix "/ipfs/" "/ipns/root" = None
  /\ Sample.parse (JString "/ipns/root") = inl invalidPathErr.
Proof.
  split; [reflexivity|].
  apply (parseIpfsPath_rejects_other_leading_slash Sample.isMultihash
           "ipns/root").
  reflexivity.
Defined.

Lemma resolve_invalid_path_witness :
  Sample.run (JString "a//b") = [CbErr invalidPathErr].
Proof.
  apply (resolve_invalid_path Sample.isMultihash Sample.validate
           Sample.fromB58String Sample.toString Sample.ipfs
           "a//b" invalidPathErr).
  reflexivity.
Defined.

Lemma resolve_fetch_bound_witness :
  fetch_count (Sample.run (JString "root/a/z/b")) <= 3 + 1.
Proof.
  apply (resolve_fetch_bound Sample.isMultihash Sample.validate
           Sample.fromB58String Sample.toString Sample.ipfs
           "root/a/z/b" {| root := "root"; links := ["a"; "z"; "b"] |}).
  reflexivity.
Defined.

Lemma resolve_failed_fetch_witness :
  Dangling.run (JString "root/a/b")
  = [ObjectGet (Sample.id "root"); ObjectGet (Sample.id "gone");
     CbErr (Error "not found")]
  /\ object_get Dangling.ipfs (Sample.id "gone") = inl (Error "not found")
  /\ [CbErr (Error "not found")] = [CbErr (Error "not found")].
Proof.
  split; [reflexivity|]. split; [reflexivity|].
  apply (resolve_failed_fetch Sample.isMultihash Sample.validate
           Sample.fromB58String Sample.toString Dangling.ipfs
           "root/a/b" [ObjectGet (Sample.id "root")] (Sample.id "gone")
           [CbErr (Error "not found")] (Error "not found"));
    reflexivity.
Defined.

Lemma resolve_consecutive_fetches_witness :
  exists obj lnk,
    object_get Sample.ipfs (Sample.id "n1") = inr obj
    /\ find (fun link => DAGLink.name link =? "b") (DAGNode.links obj)
       = Some lnk
    /\ DAGLink.multihash lnk = Sample.id "n2".
Proof.
  apply (resolve_consecutive_fetches Sample.isMultihash Sample.validate
           Sample.fromB58String Sample.toString Sample.ipfs
           "root/a/b" {| root := "root"; links := ["a"; "b"] |}
           [ObjectGet (Sample.id "root")] (Sample.id "n1") (Sample.id "n2")
           [CbOk (Sample.id "n2self")]);
    reflexivity.
Defined.

Lemma resolve_succeeds_along_chain_witness :
  Sample.run (JString "root/a/b")
  = [ObjectGet (Sample.id "root"); ObjectGet (Sample.id "n1");
     ObjectGet (Sample.id "n2"); CbOk (Sample.id "n2self")]
  /\ fetch_count [ObjectGet (Sample.id "root"); ObjectGet (Sample.id "n1");
                  ObjectGet (Sample.id "n2")] = 2 + 1.
Proof.
  apply (resolve_succeeds_along_chain Sample.isMultihash Sample.validate
           Sample.fromB58String Sample.toString Sample.ipfs
           "root/a/b" {| root := "root"; links := ["a"; "b"] |}
           [ObjectGet (Sample.id "root"); ObjectGet (Sample.id "n1");
            ObjectGet (Sample.id "n2")]
           Sample.node_n2).
  - reflexivity.
  - discriminate.
  - apply (arrives_next Sample.ipfs "a" ["b"] (Sample.id "root")
             Sample.node_root (Sample.link "a" "n1"));
      [reflexivity | reflexivity |].
    apply (arrives_next Sample.ipfs "b" [] (Sample.id "n1")
             Sample.node_n1 (Sample.link "b" "n2"));
      [reflexivity | reflexivity |].
    apply arrives_here. reflexivity.
Defined.

Lemma resolve_missing_link_run_witness :
  Sample.run (JString "root/a/z")
  = [ObjectGet (Sample.id "root"); ObjectGet (Sample.id "n1");
     CbErr (Error "no link named 'z' under n1")]
  /\ exists tr' h,
       [ObjectGet (Sample.id "root"); ObjectGet (Sample.id "n1")]
       = (tr' ++ [ObjectGet h])%list
       /\ object_get Sample.ipfs h = inr Sample.node_n1.
Proof.
  apply (resolve_missing_link_run Sample.isMultihash Sample.validate
           Sample.fromB58String Sample.toString Sample.ipfs
           "root/a/z" {| root := "root"; links := ["a"; "z"] |}
           [ObjectGet (Sample.id "root"); ObjectGet (Sample.id "n1")]
           "z" [] Sample.node_n1).
  - reflexivity.
  - discriminate.
  - apply (arrives_next Sample.ipfs "a" ["z"] (Sample.id "root")
             Sample.node_root (Sample.link "a" "n1"));
      [reflexivity | reflexivity |].
    apply arrives_here. reflexivity.
  - reflexivity.
Defined.
